(** * Text generation service: the [/generate] endpoint

    A shallow embedding of [text_generation_service/main.py]: the request
    model [GenerateRequest], the handler [generate_text] with its call to the
    text-generation pipeline, and the string post-processing it performs
    (line de-duplication, prompt removal, word clamp).

    Python [str] values are sequences of Unicode code points; they are
    modelled as lists of code points, so that [str.strip], [str.split] and
    [str.replace] can be written out the way CPython evaluates them. *)

From Stdlib Require Import ZArith NArith List Ascii String Floats.PrimFloat.
From stdpp Require Import gmap strings list.

Set Warnings "-inexact-float,-clear-no-such-hyp".

(** ** Python strings *)

(** A code point, and a Python [str]. *)
Abbreviation char := N.
Abbreviation str := (list N).

(** Code points of an ASCII literal. *)
Fixpoint py (s : string) : str :=
  match s with
  | EmptyString => []
  | String a s' => N_of_ascii a :: py s'
  end.

(** The line feed ["\n"] and the space [" "]. *)
Definition LF : char := 10%N.
Definition SP : char := 32%N.

(** [c.isspace()] for one code point: the code points that CPython's
    [_PyUnicode_IsWhitespace] accepts. *)
Definition isspace (c : char) : bool :=
  ((9 <=? c) && (c <=? 13) || (28 <=? c) && (c <=? 32)
   || (c =? 133) || (c =? 160) || (c =? 5760)
   || (8192 <=? c) && (c <=? 8202)
   || (c =? 8232) || (c =? 8233) || (c =? 8239) || (c =? 8287)
   || (c =? 12288))%N.

(** [s.lstrip()], [s.rstrip()] and [s.strip()]. *)
Fixpoint lstrip (s : str) : str :=
  match s with
  | [] => []
  | c :: s' => if isspace c then lstrip s' else s
  end.

Definition rstrip (s : str) : str := rev (lstrip (rev s)).

Definition strip (s : str) : str := rstrip (lstrip s).

(** [s.startswith(p)]. *)
Fixpoint startswith (s p : str) {struct p} : bool :=
  match p, s with
  | [], _ => true
  | _ :: _, [] => false
  | a :: p', c :: s' => (a =? c)%N && startswith s' p'
  end.

(** [p in s]: [p] occurs in [s] at some position. *)
Fixpoint contains (s p : str) : bool :=
  startswith s p ||
  match s with
  | [] => false
  | _ :: s' => contains s' p
  end.

(** What [p in s] decides: [p] occurs in [s] as a literal substring. *)
Definition occurs_in (p s : str) : Prop := ∃ a b, s = a ++ p ++ b.

(** The scan of [s.replace(old, new)] for a non-empty [old]: at a position
    where [old] starts, [new] is emitted and the next [len(old)] code points
    are passed over ([skip] counts the ones still to pass); elsewhere the
    code point is copied. *)
Fixpoint replace_scan (old new : str) (skip : nat) (s : str) : str :=
  match s with
  | [] => []
  | c :: s' =>
      match skip with
      | S k => replace_scan old new k s'
      | O =>
          if startswith s old
          then new ++ replace_scan old new (length old - 1) s'
          else c :: replace_scan old new 0 s'
      end
  end.

(** [s.replace(old, new)]. With an empty [old], Python puts [new] before
    every code point and at the end. *)
Definition replace (s old new : str) : str :=
  match old with
  | [] => new ++ flat_map (λ c, c :: new) s
  | _ :: _ => replace_scan old new 0 s
  end.

(** [s.split(sep)] for a separator of one code point; [cur] is the piece
    being read. *)
Fixpoint split_scan (sep : char) (cur : str) (s : str) : list str :=
  match s with
  | [] => [cur]
  | c :: s' =>
      if (c =? sep)%N then cur :: split_scan sep [] s'
      else split_scan sep (cur ++ [c]) s'
  end.

Definition split (s : str) (sep : char) : list str := split_scan sep [] s.

(** [s.split()]: maximal runs of code points that are not whitespace;
    [cur] is the word being read. *)
Fixpoint split_ws_scan (cur : str) (s : str) : list str :=
  match s with
  | [] => match cur with [] => [] | _ :: _ => [cur] end
  | c :: s' =>
      if isspace c
      then match cur with
           | [] => split_ws_scan [] s'
           | _ :: _ => cur :: split_ws_scan [] s'
           end
      else split_ws_scan (cur ++ [c]) s'
  end.

Definition split_ws (s : str) : list str := split_ws_scan [] s.

(** What [s.split()] yields: words, of one code point at least, none of
    them whitespace. *)
Definition word (w : str) : Prop := w ≠ [] ∧ Forall (λ c, isspace c = false) w.

(** [sep.join(l)]. *)
Fixpoint join (sep : str) (l : list str) : str :=
  match l with
  | [] => []
  | [x] => x
  | x :: rest => x ++ sep ++ join sep rest
  end.

(** ** The request model *)

(** The JSON body of [POST /generate] after type checking: [prompt] is
    required, every decoding field may be left out. *)
Record Payload := {
  p_prompt : str;
  p_max_new_tokens : option Z;
  p_temperature : option float;
  p_top_p : option float;
  p_repetition_penalty : option float;
  p_no_repeat_ngram_size : option Z
}.

(** [class GenerateRequest(BaseModel)]. *)
Record GenerateRequest := {
  prompt : str;
  max_new_tokens : Z;
  temperature : float;
  top_p : float;
  repetition_penalty : float;
  no_repeat_ngram_size : Z
}.

(** Construction of a [GenerateRequest] from the body: the defaults of the
    class declaration fill the fields left out, and nothing else is looked
    at. *)
Definition parse_body (b : Payload) : GenerateRequest :=
  {| prompt := p_prompt b;
     max_new_tokens := default 200%Z (p_max_new_tokens b);
     temperature := default 0.7%float (p_temperature b);
     top_p := default 0.9%float (p_top_p b);
     repetition_penalty := default 1.2%float (p_repetition_penalty b);
     no_repeat_ngram_size := default 2%Z (p_no_repeat_ngram_size b) |}.

(** ** Post-processing (step 4 of [generate_text]) *)

(** One iteration of the loop over [lines]: the state is
    [(unique_lines, seen)]. *)
Definition dedup_step (st : list str * gset str) (line : str)
  : list str * gset str :=
  let line_stripped := strip line in
  if bool_decide (line_stripped ∉ st.2)
  then (st.1 ++ [line], {[line_stripped]} ∪ st.2)
  else st.

(** The loop, from [unique_lines = []] and [seen = set()]. *)
Definition dedup_lines (lines : list str) : list str :=
  (foldl dedup_step ([], ∅) lines).1.

(** Lines 128 to 138: split, drop the repeated lines, join. *)
Definition dedup_text (generated_text : str) : str :=
  let lines := split generated_text LF in
  join [LF] (dedup_lines lines).

(** Lines 141 and 142: removal of the prompt. *)
Definition strip_prompt (prompt final_text : str) : str :=
  if contains final_text prompt
  then strip (replace final_text prompt [])
  else final_text.

(** Lines 145 to 147: the clamp to 200 words. *)
Definition clamp_words (final_text : str) : str :=
  let words := split_ws final_text in
  if (200 <? length words)%nat
  then join [SP] (take 200 words)
  else final_text.

(** Step 4 as a whole. *)
Definition post_process (prompt generated_text : str) : str :=
  clamp_words (strip_prompt prompt (dedup_text generated_text)).

(** ** The handler and its effects *)

(** What can be raised while a request is handled. *)
Inductive Exception {Err : Type} :=
| HTTPException (status_code : Z) (detail : str)
| IndexError
| KeyError (key : string)
| PipelineError (e : Err).
Arguments Exception : clear implicits.

(** The arguments of one call of the pipeline. *)
Record GenCall := {
  g_text : str;
  g_max_new_tokens : Z;
  g_do_sample : bool;
  g_temperature : float;
  g_top_p : float;
  g_repetition_penalty : float;
  g_no_repeat_ngram_size : Z
}.

(** The arguments [generate_text] passes to the pipeline (lines 110 to
    118). *)
Definition generator_args (final_prompt : str) (req : GenerateRequest) : GenCall :=
  {| g_text := final_prompt;
     g_max_new_tokens := max_new_tokens req;
     g_do_sample := true;
     g_temperature := temperature req;
     g_top_p := top_p req;
     g_repetition_penalty := repetition_penalty req;
     g_no_repeat_ngram_size := no_repeat_ngram_size req |}.

Section Service.

(** The text-generation pipeline loaded at start-up. It samples, so it is a
    function of its arguments and of a sampler state [Rng]; it returns a list
    of candidates, each a dictionary, or raises. *)
Context {Rng Err : Type}.
Variable generator :
  GenCall → Rng → (Err + list (gmap string str)) * Rng.

(** The state a request runs in: the sampler, and the calls of the
    pipeline made so far. *)
Record World := {
  sampler : Rng;
  calls : list GenCall
}.

(** Computations that read and write the world and may raise. *)
Definition M (A : Type) : Type := World → (Exception Err + A) * World.

#[global] Instance M_ret : MRet M := λ A a w, (inr a, w).

#[global] Instance M_bind : MBind M := λ A B k m w,
  match m w with
  | (inl e, w') => (inl e, w')
  | (inr a, w') => k a w'
  end.

Definition raise {A} (e : Exception Err) : M A := λ w, (inl e, w).

(** [generator(...)]: the call is recorded, the sampler advances. *)
Definition call_generator (c : GenCall) : M (list (gmap string str)) :=
  λ w, let (r, rng') := generator c (sampler w) in
       let w' := {| sampler := rng'; calls := calls w ++ [c] |} in
       match r with
       | inl e => (inl (PipelineError e), w')
       | inr outputs => (inr outputs, w')
       end.

(** [l[i]] on a list and [d[k]] on a dictionary. *)
Definition getitem {A} (l : list A) (i : nat) : M A :=
  match l !! i with
  | Some x => mret x
  | None => raise IndexError
  end.

Definition getkey (d : gmap string str) (k : string) : M str :=
  match d !! k with
  | Some x => mret x
  | None => raise (KeyError k)
  end.

(** [generate_text(req)]. *)
Definition generate_text (req : GenerateRequest) : M (gmap string str) :=
  let prompt := strip (prompt req) in
  if bool_decide (prompt = [])
  then raise (HTTPException 400 (py "Prompt cannot be empty."))
  else
    let final_prompt := prompt in
    outputs ← call_generator (generator_args final_prompt req);
    first ← getitem outputs 0;
    generated_text ← getkey first "generated_text";
    let final_text := post_process prompt generated_text in
    mret {[ "generated_text" := final_text ]}.

(** [POST /generate]: the body is turned into a [GenerateRequest] and the
    handler runs on it. *)
Definition post_generate (b : Payload) : M (gmap string str) :=
  generate_text (parse_body b).

End Service.

Arguments World : clear implicits.
Arguments M : clear implicits.

(** ** Pipelines and requests to run the handler on *)

(** A pipeline that returns the same candidates whatever it is asked, and
    counts its calls in the sampler state. *)
Definition scripted (outputs : list (gmap string str))
  : GenCall → nat → (unit + list (gmap string str)) * nat :=
  λ _ n, (inr outputs, S n).

(** A pipeline that returns its prompt, and a second candidate. *)
Definition echoing : GenCall → nat → (unit + list (gmap string str)) * nat :=
  λ c n, (inr [ {[ "generated_text" := g_text c ]};
                {[ "generated_text" := py "something else" ]} ], S n).

(** The body [{"prompt": p}]. *)
Definition body_of (p : str) : Payload :=
  {| p_prompt := p; p_max_new_tokens := None; p_temperature := None;
     p_top_p := None; p_repetition_penalty := None;
     p_no_repeat_ngram_size := None |}.

(** The world before any request. *)
Definition fresh : World nat := {| sampler := 0; calls := [] |}.

(** A pipeline that raises on every call. *)
Definition failing (e : string)
  : GenCall → nat → (string + list (gmap string str)) * nat :=
  λ _ n, (inl e, S n).

(** The code points of a text that are not whitespace, in order. *)
Definition visible (s : str) : str := filter (λ c, isspace c = false) s.

(** * Properties *)

(** ** Prefixes and occurrences *)

Lemma startswith_prefix (s p : str) : startswith s p = true ↔ p `prefix_of` s.
Proof.
  revert s; induction p as [|a p IH]; intros s; simpl.
  - split; [intros _; apply prefix_nil | done].
  - destruct s as [|c s]; simpl.
    + split; [done | intros [k Hk]; discriminate].
    + rewrite andb_true_iff, N.eqb_eq, IH. split.
      * intros [-> Hp]. by apply prefix_cons.
      * intros [k Hk]. injection Hk as -> ->. split; [done | by exists k].
Qed.

Lemma startswith_app (p b : str) : startswith (p ++ b) p = true.
Proof. apply startswith_prefix. by exists b. Qed.

Lemma contains_occurs (s p : str) : contains s p = true ↔ occurs_in p s.
Proof.
  induction s as [|c s IH]; simpl.
  - rewrite orb_false_r, startswith_prefix. split.
    + intros [k ->]. by exists [], k.
    + intros (a & b & H). symmetry in H.
      apply app_eq_nil in H as [-> H]. apply app_eq_nil in H as [-> ->].
      by exists [].
  - rewrite orb_true_iff, startswith_prefix, IH. split.
    + intros [[k ->] | (a & b & ->)]; [by exists [], k | by exists (c :: a), b].
    + intros (a & b & H). destruct a as [|c' a]; simpl in H.
      * left. by exists b.
      * right. injection H as -> ->. by exists a, b.
Qed.

Lemma contains_false (s p : str) : contains s p = false ↔ ¬ occurs_in p s.
Proof. rewrite <- contains_occurs. by destruct (contains s p). Qed.

Lemma occurs_in_self (p : str) : occurs_in p p.
Proof. exists [], []. by rewrite app_nil_r. Qed.

(** ** Stripping *)

Lemma lstrip_nil (s : str) : lstrip s = [] ↔ Forall isspace s.
Proof.
  induction s as [|c s IH]; simpl.
  - split; [constructor | done].
  - destruct (isspace c) eqn:Hc.
    + rewrite IH. split.
      * intros H. constructor; [by rewrite Hc | done].
      * by inversion 1.
    + split; [done |]. inversion 1; subst. by rewrite Hc in *.
Qed.

Lemma lstrip_head (s : str) :
  match lstrip s with [] => True | c :: _ => isspace c = false end.
Proof.
  induction s as [|c s IH]; simpl; [done |].
  destruct (isspace c) eqn:Hc; [done | by rewrite Hc].
Qed.

Lemma rev_nil_inv {A} (l : list A) : rev l = [] → l = [].
Proof. intros H. rewrite <- (rev_involutive l), H. done. Qed.

Lemma rstrip_nil (s : str) : rstrip s = [] ↔ Forall isspace s.
Proof.
  unfold rstrip. split.
  - intros H%rev_nil_inv%lstrip_nil%Forall_rev. by rewrite rev_involutive in H.
  - intros H%Forall_rev%lstrip_nil. by rewrite H.
Qed.

Lemma strip_nil (s : str) : strip s = [] ↔ Forall isspace s.
Proof.
  unfold strip. rewrite rstrip_nil. split.
  - intros H. pose proof (lstrip_head s) as Hh.
    destruct (lstrip s) as [|c t] eqn:E; [by apply lstrip_nil |].
    inversion H; subst. by rewrite Hh in *.
  - intros H%lstrip_nil. by rewrite H.
Qed.

Lemma lstrip_split (s : str) : ∃ a, s = a ++ lstrip s ∧ Forall isspace a.
Proof.
  induction s as [|c s (a & Ha & Hall)]; [by exists [] |]. simpl.
  destruct (isspace c) eqn:Hc; [| by exists []].
  exists (c :: a). split; [by rewrite Ha at 1 |].
  constructor; [by rewrite Hc | done].
Qed.

Lemma rstrip_split (s : str) : ∃ b, s = rstrip s ++ b ∧ Forall isspace b.
Proof.
  destruct (lstrip_split (rev s)) as (a & Ha & Hall).
  exists (rev a). split; [| by apply Forall_rev].
  unfold rstrip. by rewrite <- rev_app_distr, <- Ha, rev_involutive.
Qed.

Lemma rev_reverse {A} (l : list A) : rev l = reverse l.
Proof. unfold reverse. by rewrite <- rev_alt. Qed.

Lemma rstrip_last (s : str) (c : char) :
  last (rstrip s) = Some c → isspace c = false.
Proof.
  unfold rstrip. rewrite rev_reverse, last_reverse. intros H.
  pose proof (lstrip_head (rev s)) as Hh.
  destruct (lstrip (rev s)); simplify_eq/=. done.
Qed.

Lemma strip_head (s : str) (c : char) :
  head (strip s) = Some c → isspace c = false.
Proof.
  unfold strip. intros H.
  destruct (rstrip_split (lstrip s)) as (b & Hb & _).
  pose proof (lstrip_head s) as Hh. rewrite Hb in Hh.
  destruct (rstrip (lstrip s)); simplify_eq/=. done.
Qed.

Lemma lstrip_fixed (s : str) :
  (∀ c, head s = Some c → isspace c = false) → lstrip s = s.
Proof. destruct s as [|c s]; [done |]. intros H. simpl. by rewrite H. Qed.

Lemma rstrip_fixed (s : str) :
  (∀ c, last s = Some c → isspace c = false) → rstrip s = s.
Proof.
  intros H. unfold rstrip. rewrite lstrip_fixed; [apply rev_involutive |].
  intros c. rewrite rev_reverse, head_reverse. apply H.
Qed.

Lemma strip_split (s : str) :
  ∃ a b, s = a ++ strip s ++ b ∧ Forall isspace a ∧ Forall isspace b.
Proof.
  destruct (lstrip_split s) as (a & Ha & Hall).
  destruct (rstrip_split (lstrip s)) as (b & Hb & Hbll).
  exists a, b. unfold strip. by rewrite <- Hb.
Qed.

Lemma strip_idemp (s : str) : strip (strip s) = strip s.
Proof.
  unfold strip at 1. rewrite (lstrip_fixed (strip s)) by apply strip_head.
  apply rstrip_fixed, rstrip_last.
Qed.

Lemma lstrip_pad (a s : str) : Forall isspace a → lstrip (a ++ s) = lstrip s.
Proof.
  induction 1 as [|c a Hc _ IH]; [done |]. simpl.
  by destruct (isspace c).
Qed.

Lemma lstrip_app (s b : str) : lstrip s ≠ [] → lstrip (s ++ b) = lstrip s ++ b.
Proof.
  induction s as [|c s IH]; [done |]. simpl.
  destruct (isspace c); [apply IH | done].
Qed.

Lemma rstrip_pad (s b : str) : Forall isspace b → rstrip (s ++ b) = rstrip s.
Proof.
  intros H. unfold rstrip. rewrite rev_app_distr.
  by rewrite lstrip_pad by by apply Forall_rev.
Qed.

(** Whitespace around a text does not change what trimming leaves. *)
Lemma strip_pad (a s b : str) :
  Forall isspace a → Forall isspace b → strip (a ++ s ++ b) = strip s.
Proof.
  intros Ha Hb. unfold strip. rewrite lstrip_pad by done.
  destruct (decide (lstrip s = [])) as [Hs | Hs].
  - rewrite Hs. apply lstrip_nil in Hs.
    assert (lstrip (s ++ b) = []) as ->; [| done].
    apply lstrip_nil, Forall_app. by split.
  - by rewrite lstrip_app, rstrip_pad.
Qed.

(** Two texts have the same trimmed content exactly when they are one text
    with whitespace put around it in two ways. *)
Lemma strip_eq_iff (x y : str) :
  strip x = strip y ↔
  ∃ core a b a' b' : str,
    Forall isspace a ∧ Forall isspace b ∧
    Forall isspace a' ∧ Forall isspace b' ∧
    x = a ++ core ++ b ∧ y = a' ++ core ++ b'.
Proof.
  split.
  - intros Heq.
    destruct (strip_split x) as (a & b & Hx & Ha & Hb).
    destruct (strip_split y) as (a' & b' & Hy & Ha' & Hb').
    exists (strip x), a, b, a', b'. rewrite Heq at 2. by repeat split.
  - intros (core & a & b & a' & b' & Ha & Hb & Ha' & Hb' & -> & ->).
    by rewrite !strip_pad.
Qed.

(** ** Replacement *)

Lemma replace_scan_skip (old new a s : str) :
  replace_scan old new (length a) (a ++ s) = replace_scan old new 0 s.
Proof. induction a as [|c a IH]; simpl; [by destruct s | done]. Qed.

(** At an occurrence of [old], the scan emits [new] and goes on after it. *)
Lemma replace_scan_match (old new s : str) :
  old ≠ [] →
  replace_scan old new 0 (old ++ s) = new ++ replace_scan old new 0 s.
Proof.
  destruct old as [|c old]; [done | intros _].
  change ((c :: old) ++ s) with (c :: (old ++ s)).
  cbn [replace_scan]. change (c :: old ++ s) with ((c :: old) ++ s).
  rewrite startswith_app. cbn [length]. replace (S (length old) - 1)%nat with (length old) by lia.
  by rewrite replace_scan_skip.
Qed.

(** Elsewhere it copies one code point. *)
Lemma replace_scan_copy (old new : str) (c : char) (s : str) :
  startswith (c :: s) old = false →
  replace_scan old new 0 (c :: s) = c :: replace_scan old new 0 s.
Proof. intros H. cbn [replace_scan]. by rewrite H. Qed.

Lemma join_nil_concat (l : list str) : join [] l = concat l.
Proof.
  induction l as [|x [|y l] IH]; simpl in *; [done | by rewrite app_nil_r |].
  by rewrite IH.
Qed.

Lemma join_cons (sep x : str) (l : list str) :
  l ≠ [] → join sep (x :: l) = x ++ sep ++ join sep l.
Proof. by destruct l. Qed.

Lemma occurs_in_length (p s : str) : occurs_in p s → length p ≤ length s.
Proof. intros (a & b & ->). rewrite !length_app. lia. Qed.

Lemma removelast_short (old : str) :
  old ≠ [] → ¬ occurs_in old (removelast old).
Proof.
  intros Hne Hocc%occurs_in_length.
  rewrite (app_removelast_last 0%N Hne) in Hocc at 1.
  rewrite length_app in Hocc. simpl in Hocc. lia.
Qed.

(** Every text is a sequence of pieces free of [old], separated by copies of
    [old]; the scan turns each separator into [new]. The separators are the
    occurrences met from left to right: no occurrence starts inside a piece
    that a separator follows. *)
Lemma replace_scan_pieces (old new s : str) :
  old ≠ [] →
  ∃ pieces : list str,
    pieces ≠ [] ∧
    Forall (λ x, ¬ occurs_in old x) pieces ∧
    Forall (λ x, ¬ occurs_in old (x ++ removelast old)) (removelast pieces) ∧
    s = join old pieces ∧
    replace_scan old new 0 s = join new pieces.
Proof.
  intros Hold. remember (length s) as n eqn:Hn. revert s Hn.
  induction n as [n IH] using lt_wf_ind. intros s ->.
  assert (¬ occurs_in old []) as Hnil.
  { intros H%occurs_in_length. destruct old; [done | simpl in H; lia]. }
  destruct s as [|c s].
  { exists [[]]. repeat split; [done | by constructor | constructor | done..]. }
  destruct (startswith (c :: s) old) eqn:Hsw.
  - apply startswith_prefix in Hsw as [b Hb]. rewrite Hb.
    destruct (IH (length b)) with (s := b)
      as (ps & Hne & Hfree & Hleft & Hj & Hr); [| done |].
    { apply (f_equal length) in Hb. rewrite length_app in Hb. simpl in Hb.
      destruct old; [done | simpl in *; lia]. }
    exists ([] :: ps). repeat split; [done | by constructor | | |].
    + destruct ps as [|y ps]; [done |].
      change (removelast ([] :: y :: ps)) with ([] :: removelast (y :: ps)).
      constructor; [by apply removelast_short | done].
    + rewrite join_cons by done. simpl. by rewrite <- Hj.
    + rewrite replace_scan_match, join_cons by done. simpl. by rewrite Hr.
  - destruct (IH (length s)) with (s := s)
      as (ps & Hne & Hfree & Hleft & Hj & Hr); [simpl; lia | done |].
    destruct ps as [|x ps]; [done |].
    assert (∀ k, k `prefix_of` s → ¬ occurs_in old k → ¬ occurs_in old (c :: k))
      as Hhead.
    { intros k [k' Hk] Hk0 (a & b & H). destruct a as [|c' a]; simpl in H.
      - assert (startswith (c :: s) old = true) as Ht; [| by rewrite Ht in Hsw].
        apply startswith_prefix. exists (b ++ k').
        by rewrite Hk, app_assoc, <- H.
      - injection H as -> ->. apply Hk0. by exists a, b. }
    inversion Hfree as [|? ? Hx Hps]; subst.
    exists ((c :: x) :: ps). repeat split; [done | | | |].
    + constructor; [| done]. apply Hhead; [| done].
      destruct ps as [|y ps]; [done |]. by eexists.
    + destruct ps as [|y ps]; [constructor |].
      change (removelast ((c :: x) :: y :: ps))
        with ((c :: x) :: removelast (y :: ps)).
      change (removelast (x :: y :: ps))
        with (x :: removelast (y :: ps)) in Hleft.
      inversion Hleft as [|? ? Hx' Hps']; subst. constructor; [| done].
      apply (Hhead (x ++ removelast old)); [| done].
      exists ([List.last old 0%N] ++ join old (y :: ps)). cbn [join].
      rewrite (app_removelast_last 0%N Hold) at 1.
      by rewrite <- !app_assoc.
    + by destruct ps.
    + rewrite replace_scan_copy by done. rewrite Hr. by destruct ps.
Qed.

Lemma replace_scan_absent (old new s : str) :
  ¬ occurs_in old s → replace_scan old new 0 s = s.
Proof.
  induction s as [|c s IH]; intros H; [done |].
  rewrite replace_scan_copy, IH; [done | |].
  - intros (a & b & ->). apply H. by exists (c :: a), b.
  - apply not_true_is_false. intros [b Hb]%startswith_prefix.
    apply H. exists [], b. by rewrite Hb.
Qed.

(** ** Lines: split and join *)

Lemma split_scan_run (sep : char) (cur w rest : str) :
  sep ∉ w → split_scan sep cur (w ++ rest) = split_scan sep (cur ++ w) rest.
Proof.
  revert cur. induction w as [|c w IH]; intros cur Hw; simpl.
  - by rewrite app_nil_r.
  - apply not_elem_of_cons in Hw as [Hc Hw].
    destruct (N.eqb_spec c sep) as [-> | _]; [done |].
    by rewrite IH, <- app_assoc.
Qed.

Lemma split_scan_join (sep : char) (cur x : str) (l : list str) :
  Forall (λ s, sep ∉ s) (x :: l) →
  split_scan sep cur (join [sep] (x :: l)) = (cur ++ x) :: l.
Proof.
  revert cur x. induction l as [|y l IH]; intros cur x Hall.
  - inversion Hall; subst. simpl.
    rewrite <- (app_nil_r x) at 1. by rewrite split_scan_run.
  - inversion Hall as [|? ? Hx Hl]; subst.
    rewrite join_cons by done. rewrite split_scan_run by done.
    cbn [app split_scan]. rewrite N.eqb_refl. by rewrite IH.
Qed.

Lemma split_scan_free (sep : char) (cur s : str) :
  sep ∉ cur → Forall (λ x, sep ∉ x) (split_scan sep cur s).
Proof.
  revert cur. induction s as [|c s IH]; intros cur Hcur; simpl.
  - by constructor.
  - destruct (N.eqb_spec c sep) as [-> | Hne].
    + constructor; [done |]. apply IH. by apply not_elem_of_nil.
    + apply IH. rewrite elem_of_app, list_elem_of_singleton. naive_solver.
Qed.

Lemma split_free (s : str) (sep : char) : Forall (λ x, sep ∉ x) (split s sep).
Proof. apply split_scan_free, not_elem_of_nil. Qed.

Lemma split_not_nil (s : str) (sep : char) : split s sep ≠ [].
Proof.
  unfold split. generalize ([] : str) as cur.
  induction s as [|c s IH]; intros cur; simpl; [done |].
  destruct (c =? sep)%N; [done | apply IH].
Qed.

(** Splitting the join of lines that hold no separator gives the lines
    back. *)
Lemma split_join (sep : char) (l : list str) :
  l ≠ [] → Forall (λ s, sep ∉ s) l → split (join [sep] l) sep = l.
Proof.
  destruct l as [|x l]; [done | intros _ H].
  unfold split. by rewrite split_scan_join.
Qed.

Lemma split_single (s : str) (sep : char) : sep ∉ s → split s sep = [s].
Proof. intros H. apply (split_join sep [s]); [done | by constructor]. Qed.

(** ** Removal of repeated lines *)

(** After the loop has read [lines], [seen] holds their trimmed
    contents. *)
Lemma dedup_seen (lines : list str) :
  (foldl dedup_step ([], ∅) lines).2 = list_to_set (strip <$> lines).
Proof.
  induction lines as [|l lines IH] using rev_ind; [done |].
  rewrite foldl_app, fmap_app, list_to_set_app_L. simpl.
  unfold dedup_step at 1. case_bool_decide as Hin; simpl; rewrite IH in *.
  - set_solver.
  - set_solver.
Qed.

(** A line is appended exactly when its trimmed content is new. *)
Lemma dedup_lines_snoc (pre : list str) (line : str) :
  dedup_lines (pre ++ [line]) =
  dedup_lines pre ++
    (if bool_decide (strip line ∈ strip <$> pre) then [] else [line]).
Proof.
  unfold dedup_lines. rewrite foldl_app. simpl.
  unfold dedup_step at 1. rewrite dedup_seen.
  case_bool_decide as H1; case_bool_decide as H2; simpl;
    rewrite ?app_nil_r; try done; set_solver.
Qed.

Lemma dedup_lines_app (pre post : list str) :
  ∃ rest, rest `sublist_of` post ∧ dedup_lines (pre ++ post) = dedup_lines pre ++ rest.
Proof.
  induction post as [|l post IH] using rev_ind.
  - exists []. by rewrite !app_nil_r.
  - destruct IH as (rest & Hsub & Heq).
    rewrite app_assoc, dedup_lines_snoc, Heq, <- app_assoc.
    eexists; split; [| done].
    apply sublist_app; [done |]. case_bool_decide; [apply sublist_nil_l | done].
Qed.

Lemma dedup_lines_sublist (lines : list str) : dedup_lines lines `sublist_of` lines.
Proof.
  destruct (dedup_lines_app [] lines) as (rest & Hsub & Heq). simpl in Heq.
  by rewrite Heq.
Qed.

Lemma dedup_lines_same_contents (lines : list str) (x : str) :
  x ∈ strip <$> dedup_lines lines ↔ x ∈ strip <$> lines.
Proof.
  induction lines as [|l lines IH] using rev_ind; [done |].
  rewrite dedup_lines_snoc, !fmap_app, !elem_of_app, IH.
  case_bool_decide as Hin; simpl; [| done].
  rewrite list_elem_of_singleton, elem_of_nil. split; [naive_solver |].
  intros [? | ->]; by left.
Qed.

Lemma dedup_lines_NoDup (lines : list str) : NoDup (strip <$> dedup_lines lines).
Proof.
  induction lines as [|l lines IH] using rev_ind; [constructor |].
  rewrite dedup_lines_snoc. case_bool_decide as Hin; [by rewrite app_nil_r |].
  rewrite fmap_app. apply NoDup_app. split; [done |]. split.
  - intros x Hx Hx'. apply (proj1 (dedup_lines_same_contents _ _)) in Hx.
    apply list_elem_of_singleton in Hx' as ->. done.
  - apply NoDup_singleton.
Qed.

(** Lines whose trimmed contents differ pairwise are all kept. *)
Lemma dedup_lines_fixed (lines : list str) :
  NoDup (strip <$> lines) → dedup_lines lines = lines.
Proof.
  induction lines as [|l lines IH] using rev_ind; [done |].
  rewrite fmap_app. intros (Hnd & Hdisj & _)%NoDup_app.
  rewrite dedup_lines_snoc, IH by done.
  case_bool_decide as Hin; [| done].
  exfalso. apply (Hdisj _ Hin). simpl. apply list_elem_of_singleton. done.
Qed.

Lemma dedup_lines_idemp (lines : list str) :
  dedup_lines (dedup_lines lines) = dedup_lines lines.
Proof. apply dedup_lines_fixed, dedup_lines_NoDup. Qed.

Lemma dedup_lines_not_nil (lines : list str) : lines ≠ [] → dedup_lines lines ≠ [].
Proof.
  destruct lines as [|l lines]; [done | intros _ H].
  assert (strip l ∈ strip <$> dedup_lines (l :: lines)) as Hin.
  { apply dedup_lines_same_contents. simpl. apply elem_of_cons. by left. }
  rewrite H in Hin. by apply elem_of_nil in Hin.
Qed.

(** ** Words *)

Lemma split_ws_scan_run (cur w rest : str) :
  Forall (λ c, isspace c = false) w →
  split_ws_scan cur (w ++ rest) = split_ws_scan (cur ++ w) rest.
Proof.
  revert cur. induction w as [|c w IH]; intros cur Hw; simpl.
  - by rewrite app_nil_r.
  - inversion Hw as [|? ? Hc Hw']; subst. rewrite Hc.
    by rewrite IH, <- app_assoc.
Qed.

Lemma split_ws_scan_words (cur s : str) :
  Forall (λ c, isspace c = false) cur → Forall word (split_ws_scan cur s).
Proof.
  revert cur. induction s as [|c s IH]; intros cur Hcur; simpl.
  - destruct cur; [constructor |]. constructor; [by split | constructor].
  - destruct (isspace c) eqn:Hc.
    + destruct cur; [by apply IH |].
      constructor; [by split | by apply IH].
    + apply IH, Forall_app. split; [done | by repeat constructor].
Qed.

Lemma split_ws_words (s : str) : Forall word (split_ws s).
Proof. by apply split_ws_scan_words. Qed.

Lemma split_ws_scan_join (cur x : str) (l : list str) :
  Forall word (x :: l) →
  split_ws_scan cur (join [SP] (x :: l)) = (cur ++ x) :: l.
Proof.
  revert cur x. induction l as [|y l IH]; intros cur x Hall;
    inversion Hall as [|? ? [Hne Hx] Hl]; subst.
  - simpl. rewrite <- (app_nil_r x) at 1. rewrite split_ws_scan_run by done.
    simpl. destruct cur, x; done.
  - rewrite join_cons by done. rewrite split_ws_scan_run by done.
    cbn [app split_ws_scan]. change (isspace SP) with true. cbv iota.
    rewrite IH by done. simpl. destruct cur, x; done.
Qed.

(** Words joined by single spaces split into the same words. *)
Lemma split_ws_join (ws : list str) :
  Forall word ws → split_ws (join [SP] ws) = ws.
Proof.
  destruct ws as [|x l]; [done | intros H].
  unfold split_ws. by rewrite split_ws_scan_join.
Qed.

(** ** The handler *)

Section Handler.

Context {Rng Err : Type}.
Variable generator :
  GenCall → Rng → (Err + list (gmap string str)) * Rng.

(** A run in which the prompt is not blank and the pipeline returns at
    least one candidate that holds a text. *)
Lemma generate_text_run (req : GenerateRequest) (w : World Rng)
    (c : gmap string str) (rest : list (gmap string str)) (text : str) (rng' : Rng) :
  strip (prompt req) ≠ [] →
  generator (generator_args (strip (prompt req)) req) (sampler w)
    = (inr (c :: rest), rng') →
  c !! "generated_text" = Some text →
  generate_text generator req w =
    (inr {[ "generated_text" := post_process (strip (prompt req)) text ]},
     {| sampler := rng';
        calls := calls w ++ [generator_args (strip (prompt req)) req] |}).
Proof.
  intros Hp Hg Hc. unfold generate_text.
  rewrite bool_decide_eq_false_2 by done.
  unfold mbind, M_bind, call_generator. rewrite Hg. simpl.
  unfold getkey. by rewrite Hc.
Qed.

(** A run that returns a response went through such a call. *)
Lemma generate_text_success (req : GenerateRequest) (w w' : World Rng)
    (resp : gmap string str) :
  generate_text generator req w = (inr resp, w') →
  ∃ c rest text,
    strip (prompt req) ≠ [] ∧
    generator (generator_args (strip (prompt req)) req) (sampler w)
      = (inr (c :: rest), sampler w') ∧
    c !! "generated_text" = Some text ∧
    resp = {[ "generated_text" := post_process (strip (prompt req)) text ]}.
Proof.
  unfold generate_text. case_bool_decide as Hp; [done |].
  unfold mbind, M_bind, call_generator.
  destruct (generator _ _) as [[e | [|c rest]] rng'] eqn:Hg; simpl; [done.. |].
  unfold getkey. destruct (c !! "generated_text") as [text |] eqn:Hc; [| done].
  intros [= <- <-]. by exists c, rest, text.
Qed.

End Handler.

(** ** De-duplication of lines *)

(** C3. The de-duplication step splits the text on line feeds, runs the
    loop and joins with line feeds. In the loop, the line at any position is
    kept, as it is, exactly when its trimmed content is not the trimmed
    content of an earlier line; what follows it only appends to the result.
    So the result is a subsequence of the lines, no two kept lines have the
    same trimmed content, and every trimmed content of the input is still
    there. Two lines have the same trimmed content exactly when they differ
    in the whitespace at their ends only, so a line that is an earlier line
    up to such whitespace is dropped: of [" A"] and ["A"] the first one is
    kept, untrimmed. With prompt ["X"], ["A\nB\nA\nC"] becomes ["A\nB\nC"],
    and ["A\n A \nB\nA  \n B"] becomes ["A\nB"]. *)
Theorem dedup_keeps_first_occurrences :
  (∀ raw : str, dedup_text raw = join [LF] (dedup_lines (split raw LF))) ∧
  (∀ (pre : list str) (line : str) (post : list str),
     ∃ rest, rest `sublist_of` post ∧
       dedup_lines (pre ++ line :: post) =
       dedup_lines pre ++
         (if bool_decide (strip line ∈ strip <$> pre) then [] else [line]) ++
         rest) ∧
  (∀ lines : list str,
     dedup_lines lines `sublist_of` lines ∧
     NoDup (strip <$> dedup_lines lines) ∧
     ∀ x, x ∈ strip <$> lines ↔ x ∈ strip <$> dedup_lines lines) ∧
  post_process (py "X") (py "A" ++ LF :: py "B" ++ LF :: py "A" ++ LF :: py "C")
    = py "A" ++ LF :: py "B" ++ LF :: py "C" ∧
  (∀ x y : str,
     strip x = strip y ↔
     ∃ core a b a' b' : str,
       Forall isspace a ∧ Forall isspace b ∧
       Forall isspace a' ∧ Forall isspace b' ∧
       x = a ++ core ++ b ∧ y = a' ++ core ++ b') ∧
  (∀ (pre : list str) (earlier a b : str) (post : list str),
     earlier ∈ pre → Forall isspace a → Forall isspace b →
     ∃ rest, rest `sublist_of` post ∧
       dedup_lines (pre ++ (a ++ strip earlier ++ b) :: post)
         = dedup_lines pre ++ rest) ∧
  dedup_lines [py " A"; py "A"] = [py " A"] ∧
  dedup_lines [py "A"; py " A "; py "B"; py "A  "; py " B"]
    = [py "A"; py "B"] ∧
  post_process (py "X")
    (py "A" ++ LF :: py " A " ++ LF :: py "B" ++ LF :: py "A  " ++ LF :: py " B")
    = py "A" ++ LF :: py "B".
Proof.
  assert (∀ (pre : list str) (line : str) (post : list str),
     ∃ rest, rest `sublist_of` post ∧
       dedup_lines (pre ++ line :: post) =
       dedup_lines pre ++
         (if bool_decide (strip line ∈ strip <$> pre) then [] else [line]) ++
         rest) as Hpos.
  { intros pre line post.
    destruct (dedup_lines_app (pre ++ [line]) post) as (rest & Hsub & Heq).
    exists rest. split; [done |].
    by rewrite <- app_assoc, dedup_lines_snoc, <- app_assoc in Heq. }
  split; [done |]. split; [exact Hpos |]. split.
  { intros lines. split; [apply dedup_lines_sublist |].
    split; [apply dedup_lines_NoDup |].
    intros x. symmetry. apply dedup_lines_same_contents. }
  split; [by vm_compute |]. split; [apply strip_eq_iff |].
  split; [| by vm_compute].
  intros pre earlier a b post Hin Ha Hb.
  destruct (Hpos pre (a ++ strip earlier ++ b) post) as (rest & Hsub & Heq).
  exists rest. split; [done |]. rewrite Heq.
  rewrite strip_pad, strip_idemp by done.
  rewrite bool_decide_eq_true_2; [done |].
  by apply list_elem_of_fmap_2.
Qed.

Lemma dedup_keeps_first_occurrences_witness :
  py " A" ∈ [py "B"; py " A"] ∧
  Forall isspace (py "  ") ∧ Forall isspace [LF] ∧
  ∃ rest, rest `sublist_of` [py "C"] ∧
    dedup_lines ([py "B"; py " A"] ++ (py "  " ++ strip (py " A") ++ [LF]) :: [py "C"])
      = dedup_lines [py "B"; py " A"] ++ rest.
Proof.
  assert (py " A" ∈ [py "B"; py " A"]) as H1 by (right; left).
  assert (Forall isspace (py "  ")) as H2 by (repeat constructor).
  assert (Forall isspace [LF]) as H3 by (repeat constructor).
  split; [exact H1 |]. split; [exact H2 |]. split; [exact H3 |].
  exact (proj1 (proj2 (proj2 (proj2 (proj2 (proj2
           dedup_keeps_first_occurrences)))))
           [py "B"; py " A"] (py " A") (py "  ") [LF] [py "C"] H1 H2 H3).
Defined.

(** C5. Running the de-duplication step on its own output changes
    nothing, on the text and on the list of lines. *)
Theorem dedup_idempotent (generated_text : str) :
  dedup_text (dedup_text generated_text) = dedup_text generated_text ∧
  dedup_lines (dedup_lines (split generated_text LF))
    = dedup_lines (split generated_text LF).
Proof.
  split; [| apply dedup_lines_idemp].
  unfold dedup_text. rewrite split_join.
  - by rewrite dedup_lines_idemp.
  - apply dedup_lines_not_nil, split_not_nil.
  - apply Forall_forall. intros x Hx.
    pose proof (split_free generated_text LF) as Hfree.
    rewrite Forall_forall in Hfree. apply Hfree.
    eapply elem_of_sublist; [done | apply dedup_lines_sublist].
Qed.

(** ** Removal of the prompt *)

Lemma replace_nonempty (s old new : str) :
  old ≠ [] → replace s old new = replace_scan old new 0 s.
Proof. by destruct old. Qed.

Lemma strip_prompt_present (prompt final_text : str) :
  occurs_in prompt final_text →
  strip_prompt prompt final_text = strip (replace final_text prompt []).
Proof. intros H%contains_occurs. unfold strip_prompt. by rewrite H. Qed.

Lemma strip_prompt_absent (prompt final_text : str) :
  ¬ occurs_in prompt final_text → strip_prompt prompt final_text = final_text.
Proof. intros H%contains_false. unfold strip_prompt. by rewrite H. Qed.

(** C1. When the trimmed prompt, which is not empty, occurs in the
    de-duplicated text, the text is a sequence of two or more pieces without
    the prompt, separated by copies of the prompt; the replacement deletes
    every one of these copies and leaves the pieces, and the step returns
    them trimmed: what the replacement leaves is whitespace, then the result,
    then whitespace, and the result neither starts nor ends with whitespace.
    For prompt ["hello"] and text ["hello world hello again"] the replacement
    gives [" world  again"], and the step ["world  again"]; for the text
    [" hello world hello \n"] the step gives ["world"]. *)
Theorem strip_prompt_removes_every_occurrence :
  (∀ prompt final_text : str,
     prompt ≠ [] → occurs_in prompt final_text →
     ∃ pieces : list str,
       2 ≤ length pieces ∧
       Forall (λ s, ¬ occurs_in prompt s) pieces ∧
       Forall (λ s, ¬ occurs_in prompt (s ++ removelast prompt))
         (removelast pieces) ∧
       final_text = join prompt pieces ∧
       replace final_text prompt [] = concat pieces ∧
       strip_prompt prompt final_text = strip (concat pieces) ∧
       (∃ a b : str,
          concat pieces = a ++ strip_prompt prompt final_text ++ b ∧
          Forall isspace a ∧ Forall isspace b) ∧
       (∀ c, head (strip_prompt prompt final_text) = Some c →
             isspace c = false) ∧
       (∀ c, last (strip_prompt prompt final_text) = Some c →
             isspace c = false)) ∧
  replace (py "hello world hello again") (py "hello") [] = py " world  again" ∧
  strip_prompt (py "hello") (py "hello world hello again") = py "world  again" ∧
  replace (py " hello world hello " ++ [LF]) (py "hello") []
    = py "  world  " ++ [LF] ∧
  strip_prompt (py "hello") (py " hello world hello " ++ [LF]) = py "world".
Proof.
  split; [| by vm_compute].
  intros prompt final_text Hne Hocc.
  destruct (replace_scan_pieces prompt [] final_text Hne)
    as (pieces & Hnil & Hfree & Hleft & Hjoin & Hscan).
  exists pieces. rewrite strip_prompt_present, replace_nonempty by done.
  rewrite Hscan, join_nil_concat.
  split.
  { destruct pieces as [|x [|y pieces]]; [done | | simpl; lia].
    inversion Hfree as [|? ? Hx _]; subst. by destruct Hx. }
  repeat split; try done.
  - apply strip_split.
  - apply strip_head.
  - apply rstrip_last.
Qed.

Lemma strip_prompt_removes_every_occurrence_witness :
  py "hello" ≠ [] ∧
  occurs_in (py "hello") (py " hello world hello " ++ [LF]) ∧
  ∃ pieces : list str,
    2 ≤ length pieces ∧
    Forall (λ s, ¬ occurs_in (py "hello") s) pieces ∧
    Forall (λ s, ¬ occurs_in (py "hello") (s ++ removelast (py "hello")))
      (removelast pieces) ∧
    py " hello world hello " ++ [LF] = join (py "hello") pieces ∧
    replace (py " hello world hello " ++ [LF]) (py "hello") []
      = concat pieces ∧
    strip_prompt (py "hello") (py " hello world hello " ++ [LF])
      = strip (concat pieces) ∧
    (∃ a b : str,
       concat pieces
         = a ++ strip_prompt (py "hello") (py " hello world hello " ++ [LF])
             ++ b ∧
       Forall isspace a ∧ Forall isspace b) ∧
    (∀ c, head (strip_prompt (py "hello") (py " hello world hello " ++ [LF]))
            = Some c → isspace c = false) ∧
    (∀ c, last (strip_prompt (py "hello") (py " hello world hello " ++ [LF]))
            = Some c → isspace c = false).
Proof.
  split; [done |]. split.
  - by exists (py " "), (py " world hello " ++ [LF]).
  - apply (proj1 strip_prompt_removes_every_occurrence); [done |].
    by exists (py " "), (py " world hello " ++ [LF]).
Defined.

(** C9. The removal is a single pass and is not idempotent: for prompt
    ["ab"] and the de-duplicated text ["aabb"], deleting the one occurrence
    brings the outer code points together, so the step returns ["ab"], in
    which the prompt occurs; a second pass would return the empty text. *)
Theorem strip_prompt_not_idempotent :
  ∃ prompt final_text : str,
    prompt = py "ab" ∧ final_text = py "aabb" ∧
    strip prompt = prompt ∧
    dedup_text final_text = final_text ∧
    occurs_in prompt final_text ∧
    replace final_text prompt [] = py "ab" ∧
    strip_prompt prompt final_text = py "ab" ∧
    occurs_in prompt (strip_prompt prompt final_text) ∧
    post_process prompt final_text = py "ab" ∧
    strip_prompt prompt (strip_prompt prompt final_text)
      ≠ strip_prompt prompt final_text.
Proof.
  exists (py "ab"), (py "aabb").
  repeat split; try by vm_compute.
  - by exists (py "a"), (py "b").
  - apply contains_occurs. by vm_compute.
Qed.

(** ** The clamp to 200 words *)

(** C4. A text of more than 200 words is replaced by its first 200 words
    joined by single spaces, which splits into exactly these 200 words; a
    text of at most 200 words is returned as it is, so its word count does
    not change. *)
Theorem clamp_words_spec (final_text : str) :
  (200 < length (split_ws final_text) →
     clamp_words final_text = join [SP] (take 200 (split_ws final_text)) ∧
     split_ws (clamp_words final_text) = take 200 (split_ws final_text) ∧
     length (split_ws (clamp_words final_text)) = 200) ∧
  (length (split_ws final_text) ≤ 200 →
     clamp_words final_text = final_text ∧
     length (split_ws (clamp_words final_text))
       = length (split_ws final_text)).
Proof.
  unfold clamp_words. split; intros H.
  - apply Nat.ltb_lt in H as Hb. rewrite Hb.
    rewrite split_ws_join by apply Forall_take, split_ws_words.
    repeat split. rewrite length_take. lia.
  - apply Nat.ltb_ge in H as Hb. by rewrite Hb.
Qed.

Lemma clamp_words_spec_witness :
  (200 < length (split_ws (concat (replicate 201 (py "w ")))) ∧
   length (split_ws (clamp_words (concat (replicate 201 (py "w "))))) = 200) ∧
  (length (split_ws (py " one  two ")) ≤ 200 ∧
   clamp_words (py " one  two ") = py " one  two ").
Proof.
  split.
  - assert (200 < length (split_ws (concat (replicate 201 (py "w "))))) as H
      by (apply Nat.ltb_lt; vm_compute; reflexivity).
    split; [exact H |].
    apply (proj1 (clamp_words_spec (concat (replicate 201 (py "w ")))) H).
  - assert (length (split_ws (py " one  two ")) ≤ 200) as H
      by (apply Nat.leb_le; vm_compute; reflexivity).
    split; [exact H |].
    apply (proj2 (clamp_words_spec (py " one  two ")) H).
Defined.

(** ** Texts the post-processing leaves alone *)

(** C10. When the prompt does not occur in the de-duplicated text and the
    text has at most 200 words, the two later steps return it as it is:
    nothing is trimmed and no separator is rewritten, so the post-processing
    returns the de-duplicated text itself. *)
Theorem post_process_unchanged (prompt final_text : str) :
  ¬ occurs_in prompt final_text →
  length (split_ws final_text) ≤ 200 →
  clamp_words (strip_prompt prompt final_text) = final_text ∧
  ∀ generated_text : str,
    dedup_text generated_text = final_text →
    post_process prompt generated_text = final_text.
Proof.
  intros Habs Hlen.
  assert (clamp_words (strip_prompt prompt final_text) = final_text) as H.
  { rewrite strip_prompt_absent by done.
    unfold clamp_words. apply Nat.ltb_ge in Hlen. by rewrite Hlen. }
  split; [done |]. intros generated_text <-. done.
Qed.

Lemma post_process_unchanged_witness :
  ¬ occurs_in (py "X") (py "  A" ++ LF :: py " B  ") ∧
  length (split_ws (py "  A" ++ LF :: py " B  ")) ≤ 200 ∧
  post_process (py "X") (py "  A" ++ LF :: py " B  ")
    = py "  A" ++ LF :: py " B  ".
Proof.
  assert (¬ occurs_in (py "X") (py "  A" ++ LF :: py " B  ")) as H1
    by (apply contains_false; vm_compute; reflexivity).
  assert (length (split_ws (py "  A" ++ LF :: py " B  ")) ≤ 200) as H2
    by (apply Nat.leb_le; vm_compute; reflexivity).
  split; [exact H1 |]. split; [exact H2 |].
  apply (proj2 (post_process_unchanged _ _ H1 H2)).
  vm_compute; reflexivity.
Defined.

(** ** Requests *)

(** C2. A request whose prompt is empty or holds only whitespace fails with
    [HTTPException(status_code=400, detail="Prompt cannot be empty.")],
    whatever the pipeline is, and leaves the world as it was: no call of the
    pipeline is recorded and the sampler has not moved. *)
Theorem blank_prompt_rejected {Rng Err : Type}
    (generator : GenCall → Rng → (Err + list (gmap string str)) * Rng)
    (req : GenerateRequest) (w : World Rng) :
  Forall isspace (prompt req) →
  generate_text generator req w
    = (inl (HTTPException 400 (py "Prompt cannot be empty.")), w) ∧
  calls (generate_text generator req w).2 = calls w.
Proof.
  intros Hblank%strip_nil. unfold generate_text.
  by rewrite bool_decide_eq_true_2.
Qed.

Lemma blank_prompt_rejected_witness :
  Forall isspace (prompt (parse_body (body_of (py "  ")))) ∧
  generate_text echoing (parse_body (body_of (py "  "))) fresh
    = (inl (HTTPException 400 (py "Prompt cannot be empty.")), fresh) ∧
  calls (generate_text echoing (parse_body (body_of (py "  "))) fresh).2 = [].
Proof.
  assert (Forall isspace (prompt (parse_body (body_of (py "  "))))) as H
    by (repeat constructor).
  split; [exact H |].
  exact (blank_prompt_rejected echoing (parse_body (body_of (py "  "))) fresh H).
Defined.

(** C7. When the prompt is not blank and the pipeline returns a list of
    candidates, the response is made from the text of the first candidate
    alone: the other candidates do not appear in it. Every run that returns
    a response is of this kind, and calls the pipeline once. *)
Theorem first_candidate_only {Rng Err : Type}
    (generator : GenCall → Rng → (Err + list (gmap string str)) * Rng)
    (req : GenerateRequest) (w : World Rng) :
  (∀ (c : gmap string str) (rest : list (gmap string str)) (text : str)
     (rng' : Rng),
     strip (prompt req) ≠ [] →
     generator (generator_args (strip (prompt req)) req) (sampler w)
       = (inr (c :: rest), rng') →
     c !! "generated_text" = Some text →
     generate_text generator req w =
       (inr {[ "generated_text" := post_process (strip (prompt req)) text ]},
        {| sampler := rng';
           calls := calls w ++ [generator_args (strip (prompt req)) req] |})) ∧
  (∀ (resp : gmap string str) (w' : World Rng),
     generate_text generator req w = (inr resp, w') →
     ∃ c rest text,
       generator (generator_args (strip (prompt req)) req) (sampler w)
         = (inr (c :: rest), sampler w') ∧
       c !! "generated_text" = Some text ∧
       resp = {[ "generated_text" := post_process (strip (prompt req)) text ]} ∧
       calls w' = calls w ++ [generator_args (strip (prompt req)) req]).
Proof.
  split.
  - intros c rest text rng'. apply generate_text_run.
  - intros resp w' Hrun.
    destruct (generate_text_success _ _ _ _ _ Hrun)
      as (c & rest & text & Hp & Hg & Hc & ->).
    exists c, rest, text. repeat split; try done.
    rewrite (generate_text_run _ _ _ _ _ _ _ Hp Hg Hc) in Hrun.
    by injection Hrun as <-.
Qed.

Lemma first_candidate_only_witness :
  strip (prompt (parse_body (body_of (py "Once")))) ≠ [] ∧
  generate_text
    (scripted [ {[ "generated_text" := py "upon a time" ]};
                {[ "generated_text" := py "there was" ]} ])
    (parse_body (body_of (py "Once"))) fresh
  = (inr {[ "generated_text" := py "upon a time" ]},
     {| sampler := 1;
        calls := [generator_args (py "Once") (parse_body (body_of (py "Once")))] |}).
Proof.
  assert (strip (prompt (parse_body (body_of (py "Once")))) ≠ []) as H by done.
  split; [exact H |].
  exact (proj1 (first_candidate_only
                  (scripted [ {[ "generated_text" := py "upon a time" ]};
                              {[ "generated_text" := py "there was" ]} ])
                  (parse_body (body_of (py "Once"))) fresh)
           _ _ (py "upon a time") 1 H eq_refl eq_refl).
Defined.

(** C6. The generated text may be empty: when the pipeline returns, as its
    first candidate, the trimmed prompt itself, a prompt of one line, the
    post-processing yields the empty text and the request succeeds with
    [{"generated_text": ""}]. *)
Theorem echoed_prompt_gives_empty_text {Rng Err : Type}
    (generator : GenCall → Rng → (Err + list (gmap string str)) * Rng)
    (req : GenerateRequest) (w : World Rng)
    (rest : list (gmap string str)) (rng' : Rng) :
  strip (prompt req) ≠ [] →
  LF ∉ strip (prompt req) →
  generator (generator_args (strip (prompt req)) req) (sampler w)
    = (inr ({[ "generated_text" := strip (prompt req) ]} :: rest), rng') →
  post_process (strip (prompt req)) (strip (prompt req)) = [] ∧
  generate_text generator req w =
    (inr {[ "generated_text" := [] ]},
     {| sampler := rng';
        calls := calls w ++ [generator_args (strip (prompt req)) req] |}).
Proof.
  intros Hp Hlf Hg.
  assert (post_process (strip (prompt req)) (strip (prompt req)) = []) as Hpp.
  { unfold post_process, dedup_text. rewrite split_single by done.
    change (dedup_lines [strip (prompt req)]) with [strip (prompt req)].
    cbn [join]. rewrite strip_prompt_present by apply occurs_in_self.
    rewrite replace_nonempty by done.
    rewrite <- (app_nil_r (strip (prompt req))) at 2.
    by rewrite replace_scan_match. }
  split; [done |].
  erewrite generate_text_run; [| done | done | apply lookup_singleton_eq].
  by rewrite Hpp.
Qed.

Lemma echoed_prompt_gives_empty_text_witness :
  strip (prompt (parse_body (body_of (py " hello ")))) ≠ [] ∧
  (LF ∉ strip (prompt (parse_body (body_of (py " hello "))))) ∧
  generate_text echoing (parse_body (body_of (py " hello "))) fresh
    = (inr {[ "generated_text" := [] ]},
       {| sampler := 1;
          calls := [generator_args (py "hello")
                      (parse_body (body_of (py " hello ")))] |}).
Proof.
  assert (strip (prompt (parse_body (body_of (py " hello ")))) ≠ []) as H1
    by done.
  assert (LF ∉ strip (prompt (parse_body (body_of (py " hello "))))) as H2
    by (apply (bool_decide_unpack _); vm_compute; exact I).
  split; [exact H1 |]. split; [exact H2 |].
  exact (proj2 (echoed_prompt_gives_empty_text echoing
                  (parse_body (body_of (py " hello "))) fresh _ 1
                  H1 H2 eq_refl)).
Defined.

(** C8. A body that leaves a decoding field out gets the default of the
    class declaration: 200, 0.7, 0.9, 1.2 and 2. A field that is given is
    taken as it is, whatever its value: no body is refused for the value of
    a decoding field, and when the prompt is not blank the pipeline is called
    with exactly the values of the body, as with a temperature of -1. *)
Theorem parse_body_defaults_no_range_check :
  (∀ p : str,
     parse_body (body_of p)
     = {| prompt := p; max_new_tokens := 200; temperature := 0.7;
          top_p := 0.9; repetition_penalty := 1.2;
          no_repeat_ngram_size := 2 |}) ∧
  (∀ b : Payload,
     prompt (parse_body b) = p_prompt b ∧
     max_new_tokens (parse_body b) = default 200%Z (p_max_new_tokens b) ∧
     temperature (parse_body b) = default 0.7%float (p_temperature b) ∧
     top_p (parse_body b) = default 0.9%float (p_top_p b) ∧
     repetition_penalty (parse_body b)
       = default 1.2%float (p_repetition_penalty b) ∧
     no_repeat_ngram_size (parse_body b)
       = default 2%Z (p_no_repeat_ngram_size b)) ∧
  (∀ (p : str) (m n : Z) (t tp rp : float),
     parse_body {| p_prompt := p; p_max_new_tokens := Some m;
                   p_temperature := Some t; p_top_p := Some tp;
                   p_repetition_penalty := Some rp;
                   p_no_repeat_ngram_size := Some n |}
     = {| prompt := p; max_new_tokens := m; temperature := t; top_p := tp;
          repetition_penalty := rp; no_repeat_ngram_size := n |}) ∧
  (∀ (Rng Err : Type)
     (generator : GenCall → Rng → (Err + list (gmap string str)) * Rng)
     (b : Payload) (w : World Rng),
     strip (p_prompt b) ≠ [] →
     calls (post_generate generator b w).2 =
       calls w ++
       [ {| g_text := strip (p_prompt b);
            g_max_new_tokens := default 200%Z (p_max_new_tokens b);
            g_do_sample := true;
            g_temperature := default 0.7%float (p_temperature b);
            g_top_p := default 0.9%float (p_top_p b);
            g_repetition_penalty := default 1.2%float (p_repetition_penalty b);
            g_no_repeat_ngram_size := default 2%Z (p_no_repeat_ngram_size b) |} ]).
Proof.
  repeat split.
  intros Rng Err generator b w Hp. unfold post_generate, generate_text.
  rewrite bool_decide_eq_false_2 by done.
  unfold mbind, M_bind, call_generator.
  destruct (generator _ _) as [[e | [|c rest]] rng']; simpl; [done.. |].
  unfold getkey. by destruct (c !! "generated_text").
Qed.

Lemma parse_body_defaults_no_range_check_witness :
  strip (py "Once") ≠ [] ∧
  calls (post_generate echoing
           {| p_prompt := py "Once"; p_max_new_tokens := Some (-5)%Z;
              p_temperature := Some (-1)%float; p_top_p := Some 7%float;
              p_repetition_penalty := None;
              p_no_repeat_ngram_size := None |} fresh).2
  = [ {| g_text := py "Once"; g_max_new_tokens := -5; g_do_sample := true;
         g_temperature := -1; g_top_p := 7; g_repetition_penalty := 1.2;
         g_no_repeat_ngram_size := 2 |} ].
Proof.
  assert (strip (py "Once") ≠ []) as H by done.
  split; [exact H |].
  exact (proj2 (proj2 (proj2 parse_body_defaults_no_range_check))
           nat unit echoing
           {| p_prompt := py "Once"; p_max_new_tokens := Some (-5)%Z;
              p_temperature := Some (-1)%float; p_top_p := Some 7%float;
              p_repetition_penalty := None;
              p_no_repeat_ngram_size := None |} fresh H).
Defined.

(** * Further properties of the handler and of its string operations *)

(** ** Trimming *)

(** [s.strip()] cuts a run of whitespace off each end of [s] and nothing
    else: what is left neither starts nor ends with whitespace, and trimming
    it again changes nothing. *)
Theorem strip_spec (s : str) :
  (∃ a b, s = a ++ strip s ++ b ∧ Forall isspace a ∧ Forall isspace b) ∧
  (∀ c, head (strip s) = Some c → isspace c = false) ∧
  (∀ c, last (strip s) = Some c → isspace c = false) ∧
  strip (strip s) = strip s.
Proof.
  split; [apply strip_split |]. split; [apply strip_head |].
  split; [apply rstrip_last | apply strip_idemp].
Qed.

(** ** Lines *)

Lemma join_split_scan (sep : char) (cur s : str) :
  join [sep] (split_scan sep cur s) = cur ++ s.
Proof.
  revert cur. induction s as [|c s IH]; intros cur; simpl.
  - by rewrite app_nil_r.
  - destruct (N.eqb_spec c sep) as [-> | _].
    + rewrite join_cons by apply (split_not_nil s sep).
      by rewrite IH.
    + by rewrite IH, <- app_assoc.
Qed.

(** Splitting on a code point and joining on it are inverse to each other:
    joining the pieces of a text gives the text back, and splitting the join
    of pieces that do not hold the separator gives the pieces back (there is
    always one piece at least). *)
Theorem split_join_round_trip (sep : char) :
  (∀ s : str, join [sep] (split s sep) = s) ∧
  (∀ s : str, split s sep ≠ [] ∧ Forall (λ x, sep ∉ x) (split s sep)) ∧
  (∀ l : list str,
     l ≠ [] → Forall (λ x, sep ∉ x) l → split (join [sep] l) sep = l).
Proof.
  split; [intros s; apply join_split_scan |].
  split; [intros s; split; [apply split_not_nil | apply split_free] |].
  apply split_join.
Qed.

Lemma split_join_round_trip_witness :
  [py "a"; []; py " b"] ≠ [] ∧
  Forall (λ x, LF ∉ x) [py "a"; []; py " b"] ∧
  split (join [LF] [py "a"; []; py " b"]) LF = [py "a"; []; py " b"].
Proof.
  assert ([py "a"; []; py " b"] ≠ []) as H1 by done.
  assert (Forall (λ x, LF ∉ x) [py "a"; []; py " b"]) as H2.
  { repeat constructor; apply (bool_decide_unpack _); vm_compute; exact I. }
  split; [exact H1 |]. split; [exact H2 |].
  exact (proj2 (proj2 (split_join_round_trip LF)) _ H1 H2).
Defined.

Lemma dedup_lines_free (lines : list str) :
  Forall (λ x, LF ∉ x) lines → Forall (λ x, LF ∉ x) (dedup_lines lines).
Proof.
  rewrite !Forall_forall. intros H x Hx. apply H.
  eapply elem_of_sublist; [done | apply dedup_lines_sublist].
Qed.

(** The lines of the de-duplicated text are the lines the loop kept. *)
Lemma split_dedup_text (generated_text : str) :
  split (dedup_text generated_text) LF = dedup_lines (split generated_text LF).
Proof.
  unfold dedup_text. apply split_join.
  - apply dedup_lines_not_nil, split_not_nil.
  - apply dedup_lines_free, split_free.
Qed.

Lemma dedup_lines_head (line : str) (lines : list str) :
  ∃ rest, rest `sublist_of` lines ∧ dedup_lines (line :: lines) = line :: rest.
Proof.
  destruct (dedup_lines_app [line] lines) as (rest & Hsub & Heq).
  by exists rest.
Qed.

Lemma NoDup_fmap_filter_eq {A B} `{EqDecision B} (f : A → B) (y : B) (l : list A) :
  NoDup (f <$> l) → length (filter (λ x, f x = y) l) ≤ 1.
Proof.
  induction l as [|x l IH]; [simpl; lia |].
  rewrite fmap_cons, NoDup_cons. intros [Hx Hl].
  rewrite filter_cons. case_decide as Hy; [| by apply IH].
  assert (filter (λ x, f x = y) l = []) as ->; [| simpl; lia].
  apply elem_of_nil_inv. intros z [Hz Hin]%list_elem_of_filter.
  apply Hx. rewrite Hy, <- Hz. by apply list_elem_of_fmap_2.
Qed.

(** The first line of the generated text is always kept as it is, and of
    all the lines that are empty or hold only whitespace at most one is
    left: every blank line after the first one is dropped. *)
Theorem dedup_text_first_line_and_blank_lines (generated_text : str) :
  head (split (dedup_text generated_text) LF)
    = head (split generated_text LF) ∧
  length (filter (λ line, Forall isspace line)
            (split (dedup_text generated_text) LF)) ≤ 1.
Proof.
  rewrite split_dedup_text. split.
  - pose proof (split_not_nil generated_text LF) as Hne.
    destruct (split generated_text LF) as [|line lines]; [done |].
    by destruct (dedup_lines_head line lines) as (rest & _ & ->).
  - etrans; [| apply (NoDup_fmap_filter_eq strip []), dedup_lines_NoDup].
    apply Nat.eq_le_incl. f_equal. apply list_filter_iff.
    intros line. symmetry. apply strip_nil.
Qed.

(** The de-duplication step returns the text as it is exactly when no two
    of its lines have the same trimmed content. *)
Theorem dedup_text_fixed_iff (generated_text : str) :
  dedup_text generated_text = generated_text ↔
  NoDup (strip <$> split generated_text LF).
Proof.
  split.
  - intros H. rewrite <- H at 1. rewrite split_dedup_text.
    apply dedup_lines_NoDup.
  - intros H. unfold dedup_text. rewrite dedup_lines_fixed by done.
    apply join_split_scan.
Qed.

(** ** What the post-processing can delete *)

Lemma join_sublist (sep : str) (l1 l2 : list str) :
  l1 `sublist_of` l2 → join sep l1 `sublist_of` join sep l2.
Proof.
  induction 1 as [|x l1 l2 Hsub IH|x l1 l2 Hsub IH]; [done | |].
  - destruct l1 as [|y l1].
    + destruct l2 as [|z l2]; [reflexivity |].
      rewrite (join_cons sep x (z :: l2)) by done.
      simpl. apply sublist_inserts_r. reflexivity.
    + assert (l2 ≠ []) as Hne.
      { intros ->. by apply sublist_nil_r in Hsub. }
      rewrite (join_cons sep x (y :: l1)), (join_cons sep x l2) by done.
      apply sublist_app; [reflexivity |]. by apply sublist_app.
  - destruct l2 as [|z l2].
    + apply sublist_nil_r in Hsub as ->. apply sublist_nil_l.
    + rewrite (join_cons sep x (z :: l2)) by done.
      by apply sublist_inserts_l, sublist_inserts_l.
Qed.

Lemma dedup_text_sublist (generated_text : str) :
  dedup_text generated_text `sublist_of` generated_text.
Proof.
  rewrite <- (join_split_scan LF [] generated_text) at 2.
  apply join_sublist, dedup_lines_sublist.
Qed.

Lemma replace_scan_sublist (old : str) (skip : nat) (s : str) :
  replace_scan old [] skip s `sublist_of` s.
Proof.
  revert skip. induction s as [|c s IH]; intros skip; [done |].
  cbn [replace_scan]. destruct skip as [|k]; [| apply sublist_cons, IH].
  destruct (startswith (c :: s) old); [apply sublist_cons, IH |].
  apply sublist_skip, IH.
Qed.

Lemma replace_sublist (s old : str) : replace s old [] `sublist_of` s.
Proof.
  destruct old as [|a old]; [| apply replace_scan_sublist].
  simpl. induction s as [|c s IH]; [done |]. by apply sublist_skip.
Qed.

Lemma strip_sublist (s : str) : strip s `sublist_of` s.
Proof.
  destruct (strip_split s) as (a & b & H & _).
  rewrite H at 2. by apply sublist_inserts_l, sublist_inserts_r.
Qed.

Lemma join_length (sep : str) (l : list str) :
  length (join sep l) = length (concat l) + length sep * (length l - 1).
Proof.
  induction l as [|x [|y l] IH]; simpl in *; [lia | rewrite app_nil_r; lia |].
  rewrite !length_app, IH. simpl. rewrite !length_app. lia.
Qed.

Lemma strip_prompt_sublist (prompt final_text : str) :
  strip_prompt prompt final_text `sublist_of` final_text.
Proof.
  unfold strip_prompt. destruct (contains final_text prompt); [| done].
  etrans; [apply strip_sublist | apply replace_sublist].
Qed.

(** The removal of the prompt only deletes code points: its result is a
    subsequence of the text. When the prompt, which is not empty, occurs in
    the text, the result is shorter by the length of the prompt at least,
    and it neither starts nor ends with whitespace. *)
Theorem strip_prompt_only_deletes (prompt final_text : str) :
  strip_prompt prompt final_text `sublist_of` final_text ∧
  (prompt ≠ [] → occurs_in prompt final_text →
   length (strip_prompt prompt final_text) + length prompt
     ≤ length final_text ∧
   strip (strip_prompt prompt final_text) = strip_prompt prompt final_text).
Proof.
  split; [apply strip_prompt_sublist |].
  intros Hne Hocc. rewrite strip_prompt_present by done.
  split; [| apply strip_idemp].
  destruct (replace_scan_pieces prompt [] final_text Hne)
    as (pieces & Hnil & Hfree & _ & Hjoin & Hscan).
  rewrite replace_nonempty, Hscan, join_nil_concat by done.
  pose proof (sublist_length _ _ (strip_sublist (concat pieces))) as Hlen.
  pose proof (join_length prompt pieces) as Hj. rewrite <- Hjoin in Hj.
  destruct pieces as [|x [|y pieces]]; simpl in *; [done | | nia].
  inversion Hfree as [|? ? Hx _]; subst. done.
Qed.

Lemma strip_prompt_only_deletes_witness :
  py "the" ≠ [] ∧ occurs_in (py "the") (py "the cat and the hat") ∧
  length (strip_prompt (py "the") (py "the cat and the hat")) + length (py "the")
    ≤ length (py "the cat and the hat").
Proof.
  assert (py "the" ≠ []) as H1 by done.
  assert (occurs_in (py "the") (py "the cat and the hat")) as H2
    by (by exists [], (py " cat and the hat")).
  split; [exact H1 |]. split; [exact H2 |].
  exact (proj1 (proj2 (strip_prompt_only_deletes _ _) H1 H2)).
Defined.

(** ** Words *)

(** The words of a text, put end to end, are its code points that are not
    whitespace. *)
Lemma concat_split_ws_scan (cur s : str) :
  concat (split_ws_scan cur s) = cur ++ visible s.
Proof.
  unfold visible. revert cur. induction s as [|c s IH]; intros cur.
  - destruct cur; simpl; by rewrite ?app_nil_r.
  - cbn [split_ws_scan]. rewrite filter_cons.
    destruct (isspace c) eqn:Hc; case_decide; try done.
    + destruct cur; [apply (IH []) |]. simpl. by rewrite (IH []).
    + by rewrite IH, <- app_assoc.
Qed.

Lemma concat_split_ws (s : str) : concat (split_ws s) = visible s.
Proof. apply (concat_split_ws_scan []). Qed.

Lemma visible_join_words (ws : list str) :
  Forall word ws → visible (join [SP] ws) = concat ws.
Proof. intros H. by rewrite <- concat_split_ws, split_ws_join. Qed.

Lemma visible_sublist (s t : str) :
  s `sublist_of` t → visible s `sublist_of` visible t.
Proof.
  unfold visible. induction 1 as [|x l1 l2 Hsub IH|x l1 l2 Hsub IH]; [done | |];
    rewrite !filter_cons; case_decide; try done.
  - by apply sublist_skip.
  - by apply sublist_cons.
Qed.

Lemma prefix_sublist {A} (l1 l2 : list A) :
  l1 `prefix_of` l2 → l1 `sublist_of` l2.
Proof. intros [k ->]. by apply sublist_inserts_r. Qed.

Lemma clamp_words_at_most_200 (final_text : str) :
  length (split_ws (clamp_words final_text)) ≤ 200.
Proof.
  unfold clamp_words.
  destruct (Nat.ltb_spec 200 (length (split_ws final_text))) as [H | H];
    [| done].
  rewrite split_ws_join by apply Forall_take, split_ws_words.
  rewrite length_take. lia.
Qed.

Lemma clamp_words_fixed (final_text : str) :
  length (split_ws final_text) ≤ 200 → clamp_words final_text = final_text.
Proof. intros H%Nat.ltb_ge. unfold clamp_words. by rewrite H. Qed.

Lemma clamp_words_visible (final_text : str) :
  visible (clamp_words final_text) `prefix_of` visible final_text.
Proof.
  unfold clamp_words.
  destruct (Nat.ltb_spec 200 (length (split_ws final_text))) as [H | H];
    [| done].
  rewrite visible_join_words by apply Forall_take, split_ws_words.
  rewrite <- concat_split_ws.
  rewrite <- (take_drop 200 (split_ws final_text)) at 2.
  rewrite concat_app. by apply prefix_app_r.
Qed.

(** The clamp never leaves more than 200 words and a second clamp changes
    nothing. It changes whitespace only, and cuts only at the end: the code
    points of the result that are not whitespace are the first ones of the
    text, in the same order. *)
Theorem clamp_words_bound (final_text : str) :
  length (split_ws (clamp_words final_text)) ≤ 200 ∧
  clamp_words (clamp_words final_text) = clamp_words final_text ∧
  visible (clamp_words final_text) `prefix_of` visible final_text.
Proof.
  split; [apply clamp_words_at_most_200 |].
  split; [apply clamp_words_fixed, clamp_words_at_most_200 |].
  apply clamp_words_visible.
Qed.

(** Post-processing as a whole never adds, changes or reorders a code point
    that is not whitespace: these code points of its result are a
    subsequence of those of the generated text; and the result has at most
    200 words. *)
Theorem post_process_only_deletes (prompt generated_text : str) :
  visible (post_process prompt generated_text)
    `sublist_of` visible generated_text ∧
  length (split_ws (post_process prompt generated_text)) ≤ 200.
Proof.
  unfold post_process. split; [| apply clamp_words_at_most_200].
  etrans; [apply prefix_sublist, clamp_words_visible |].
  apply visible_sublist.
  etrans; [apply strip_prompt_sublist | apply dedup_text_sublist].
Qed.

(** ** The handler: calls of the pipeline and failures *)

Section Runs.

Context {Rng Err : Type}.
Variable generator :
  GenCall → Rng → (Err + list (gmap string str)) * Rng.

(** The world after a run with a prompt that is not blank. *)
Lemma generate_text_world (req : GenerateRequest) (w : World Rng) :
  strip (prompt req) ≠ [] →
  (generate_text generator req w).2 =
    {| sampler :=
         (generator (generator_args (strip (prompt req)) req) (sampler w)).2;
       calls := calls w ++ [generator_args (strip (prompt req)) req] |}.
Proof.
  intros Hp. unfold generate_text. rewrite bool_decide_eq_false_2 by done.
  unfold mbind, M_bind, call_generator.
  destruct (generator _ _) as [[e | [|c rest]] rng']; simpl; [done.. |].
  unfold getkey. by destruct (c !! "generated_text").
Qed.

(** What a run with a prompt that is not blank returns. *)
Lemma generate_text_result (req : GenerateRequest) (w : World Rng) :
  strip (prompt req) ≠ [] →
  (generate_text generator req w).1 =
    match (generator (generator_args (strip (prompt req)) req) (sampler w)).1 with
    | inl e => inl (PipelineError e)
    | inr [] => inl IndexError
    | inr (c :: _) =>
        match c !! "generated_text" with
        | None => inl (KeyError "generated_text")
        | Some text =>
            inr {[ "generated_text" := post_process (strip (prompt req)) text ]}
        end
    end.
Proof.
  intros Hp. unfold generate_text. rewrite bool_decide_eq_false_2 by done.
  unfold mbind, M_bind, call_generator.
  destruct (generator _ _) as [[e | [|c rest]] rng']; simpl; [done.. |].
  unfold getkey. by destruct (c !! "generated_text").
Qed.

End Runs.

(** The pipeline is called once for a prompt that is not blank, whatever it
    answers (a failure is not retried), with the trimmed prompt and with
    sampling on; it is not called, and the world is left as it was, exactly
    when the prompt is blank. *)
Theorem pipeline_called_once {Rng Err : Type}
    (generator : GenCall → Rng → (Err + list (gmap string str)) * Rng)
    (req : GenerateRequest) (w : World Rng) :
  (Forall isspace (prompt req) ∧ generate_text generator req w = 
     (inl (HTTPException 400 (py "Prompt cannot be empty.")), w)) ∨
  (¬ Forall isspace (prompt req) ∧
   ∃ c : GenCall,
     calls (generate_text generator req w).2 = calls w ++ [c] ∧
     g_text c = strip (prompt req) ∧ g_do_sample c = true ∧
     g_max_new_tokens c = max_new_tokens req ∧
     g_temperature c = temperature req ∧ g_top_p c = top_p req ∧
     g_repetition_penalty c = repetition_penalty req ∧
     g_no_repeat_ngram_size c = no_repeat_ngram_size req ∧
     sampler (generate_text generator req w).2 = (generator c (sampler w)).2).
Proof.
  destruct (decide (strip (prompt req) = [])) as [Hp | Hp].
  - left. split; [by apply strip_nil |].
    unfold generate_text. by rewrite bool_decide_eq_true_2.
  - right. split; [by rewrite <- strip_nil |].
    exists (generator_args (strip (prompt req)) req).
    by rewrite generate_text_world.
Qed.

(** The handler raises an [HTTPException] for a blank prompt only, and
    then with status 400: no failure of the pipeline and no malformed answer
    is turned into an HTTP error by the handler. *)
Theorem http_error_only_for_blank_prompt {Rng Err : Type}
    (generator : GenCall → Rng → (Err + list (gmap string str)) * Rng)
    (req : GenerateRequest) (w : World Rng) (status_code : Z) (detail : str) :
  (generate_text generator req w).1 = inl (HTTPException status_code detail) ↔
  Forall isspace (prompt req) ∧ status_code = 400%Z ∧
  detail = py "Prompt cannot be empty.".
Proof.
  destruct (decide (strip (prompt req) = [])) as [Hp | Hp].
  - unfold generate_text. rewrite bool_decide_eq_true_2 by done. simpl.
    rewrite <- strip_nil. split; [by intros [= <- <-] | by intros (_ & -> & ->)].
  - rewrite generate_text_result, <- strip_nil by done. split; [| by intros []].
    destruct (generator _ _) as [[e | [|c rest]] rng']; simpl; [done.. |].
    by destruct (c !! "generated_text").
Qed.

(** With a prompt that is not blank: an exception of the pipeline is
    propagated as it is; an empty list of candidates gives an [IndexError];
    a first candidate without the key ["generated_text"] gives a [KeyError],
    whatever the other candidates hold. In each case the one call has been
    made. *)
Theorem generation_failures {Rng Err : Type}
    (generator : GenCall → Rng → (Err + list (gmap string str)) * Rng)
    (req : GenerateRequest) (w : World Rng) (rng' : Rng) :
  strip (prompt req) ≠ [] →
  (∀ e : Err,
     generator (generator_args (strip (prompt req)) req) (sampler w)
       = (inl e, rng') →
     generate_text generator req w =
       (inl (PipelineError e),
        {| sampler := rng';
           calls := calls w ++ [generator_args (strip (prompt req)) req] |})) ∧
  (generator (generator_args (strip (prompt req)) req) (sampler w)
     = (inr [], rng') →
   generate_text generator req w =
     (inl IndexError,
      {| sampler := rng';
         calls := calls w ++ [generator_args (strip (prompt req)) req] |})) ∧
  (∀ (c : gmap string str) (rest : list (gmap string str)),
     generator (generator_args (strip (prompt req)) req) (sampler w)
       = (inr (c :: rest), rng') →
     c !! "generated_text" = None →
     generate_text generator req w =
       (inl (KeyError "generated_text"),
        {| sampler := rng';
           calls := calls w ++ [generator_args (strip (prompt req)) req] |})).
Proof.
  intros Hp.
  assert (∀ x, x = ((generate_text generator req w).1,
                    (generate_text generator req w).2) →
               generate_text generator req w = x) as Hpair.
  { intros x ->. by destruct (generate_text generator req w). }
  repeat split.
  - intros e Hg. apply Hpair.
    by rewrite generate_text_result, generate_text_world, Hg.
  - intros Hg. apply Hpair.
    by rewrite generate_text_result, generate_text_world, Hg.
  - intros c rest Hg Hc. apply Hpair.
    rewrite generate_text_result, generate_text_world, Hg by done.
    simpl. by rewrite Hc.
Qed.

Lemma generation_failures_witness :
  strip (prompt (parse_body (body_of (py "Once")))) ≠ [] ∧
  generate_text (failing "out of memory") (parse_body (body_of (py "Once"))) fresh
    = (inl (PipelineError "out of memory"),
       {| sampler := 1;
          calls := [generator_args (py "Once") (parse_body (body_of (py "Once")))] |}) ∧
  generate_text (scripted []) (parse_body (body_of (py "Once"))) fresh
    = (inl IndexError,
       {| sampler := 1;
          calls := [generator_args (py "Once") (parse_body (body_of (py "Once")))] |}) ∧
  generate_text
    (scripted [ {[ "text" := py "upon" ]}; {[ "generated_text" := py "a time" ]} ])
    (parse_body (body_of (py "Once"))) fresh
    = (inl (KeyError "generated_text"),
       {| sampler := 1;
          calls := [generator_args (py "Once") (parse_body (body_of (py "Once")))] |}).
Proof.
  assert (strip (prompt (parse_body (body_of (py "Once")))) ≠ []) as H by done.
  split; [exact H |]. split; [| split].
  - exact (proj1 (generation_failures (failing "out of memory")
                    (parse_body (body_of (py "Once"))) fresh 1 H)
             "out of memory" eq_refl).
  - exact (proj1 (proj2 (generation_failures (scripted [])
                           (parse_body (body_of (py "Once"))) fresh 1 H))
             eq_refl).
  - exact (proj2 (proj2 (generation_failures
                           (scripted [ {[ "text" := py "upon" ]};
                                       {[ "generated_text" := py "a time" ]} ])
                           (parse_body (body_of (py "Once"))) fresh 1 H))
             _ _ eq_refl eq_refl).
Defined.

(** A response holds the key ["generated_text"] and no other key, and its
    text has at most 200 words. *)
Theorem response_shape {Rng Err : Type}
    (generator : GenCall → Rng → (Err + list (gmap string str)) * Rng)
    (req : GenerateRequest) (w w' : World Rng) (resp : gmap string str) :
  generate_text generator req w = (inr resp, w') →
  dom resp = {[ "generated_text" ]} ∧
  ∃ text, resp !! "generated_text" = Some text ∧
          length (split_ws text) ≤ 200.
Proof.
  intros (c & rest & text & _ & _ & _ & ->)%generate_text_success.
  split; [apply dom_singleton_L |].
  eexists. split; [apply lookup_singleton_eq |].
  apply clamp_words_at_most_200.
Qed.

Lemma response_shape_witness :
  generate_text echoing (parse_body (body_of (py "Once"))) fresh
    = (inr {[ "generated_text" := [] ]},
       {| sampler := 1;
          calls := [generator_args (py "Once") (parse_body (body_of (py "Once")))] |}) ∧
  dom ({[ "generated_text" := [] ]} : gmap string str) = {[ "generated_text" ]}.
Proof.
  assert (generate_text echoing (parse_body (body_of (py "Once"))) fresh
    = (inr {[ "generated_text" := [] ]},
       {| sampler := 1;
          calls := [generator_args (py "Once") (parse_body (body_of (py "Once")))] |}))
    as H by (vm_compute; reflexivity).
  split; [exact H |].
  exact (proj1 (response_shape echoing _ _ _ _ H)).
Defined.

(** ** The loop over the lines *)

(** When the loop has read all the lines, [seen] holds the trimmed contents
    of the lines read, each kept line stands for one of them, and there are
    as many kept lines as elements of [seen]. *)
Theorem dedup_loop_invariant (lines : list str) :
  (foldl dedup_step ([], ∅) lines).2 = list_to_set (strip <$> lines) ∧
  list_to_set (strip <$> (foldl dedup_step ([], ∅) lines).1)
    = (foldl dedup_step ([], ∅) lines).2 ∧
  length (foldl dedup_step ([], ∅) lines).1
    = size (foldl dedup_step ([], ∅) lines).2.
Proof.
  assert (list_to_set (strip <$> dedup_lines lines)
          =@{gset str} list_to_set (strip <$> lines)) as Hset.
  { apply set_eq. intros x. rewrite !elem_of_list_to_set.
    apply dedup_lines_same_contents. }
  rewrite dedup_seen. fold (dedup_lines lines).
  split; [done |]. split; [done |].
  rewrite <- Hset, size_list_to_set by apply dedup_lines_NoDup.
  by rewrite length_fmap.
Qed.

(** ** Words: split and join *)

(** [s.split()] yields words, none empty and none holding whitespace, which
    put end to end are the code points of [s] that are not whitespace; it
    yields no word exactly when [s] is blank; and the words joined by single
    spaces split into the same words. *)
Theorem split_ws_round_trip :
  (∀ s : str, Forall word (split_ws s) ∧ concat (split_ws s) = visible s) ∧
  (∀ s : str, split_ws s = [] ↔ Forall isspace s) ∧
  (∀ ws : list str, Forall word ws → split_ws (join [SP] ws) = ws).
Proof.
  split; [intros s; split; [apply split_ws_words | apply concat_split_ws] |].
  split; [| apply split_ws_join].
  intros s. split.
  - intros H. pose proof (concat_split_ws s) as Hc. rewrite H in Hc.
    unfold visible in Hc. symmetry in Hc. apply Forall_forall. intros c Hin.
    destruct (isspace c) eqn:Hsp; [done |].
    by apply (filter_nil_not_elem_of _ _ c Hc) in Hsp.
  - intros H. pose proof (split_ws_words s) as Hw.
    pose proof (concat_split_ws s) as Hc.
    destruct (split_ws s) as [|w ws]; [done |].
    inversion Hw as [|? ? [Hne Hvis] _]; subst.
    destruct w as [|c w]; [done |]. exfalso.
    assert (c ∈ visible s) as Hin by (rewrite <- Hc; simpl; left).
    apply list_elem_of_filter in Hin as [Hsp Hin].
    rewrite Forall_forall in H. specialize (H c Hin). by rewrite Hsp in H.
Qed.

Lemma split_ws_round_trip_witness :
  Forall word [py "Once"; py "upon"; py "a"; py "time"] ∧
  split_ws (join [SP] [py "Once"; py "upon"; py "a"; py "time"])
    = [py "Once"; py "upon"; py "a"; py "time"].
Proof.
  assert (Forall word [py "Once"; py "upon"; py "a"; py "time"]) as H.
  { repeat constructor; done. }
  split; [exact H |].
  exact (proj2 (proj2 split_ws_round_trip) _ H).
Defined.

(** ** The echo at the start of the text *)

(** When the text is the prompt followed by a continuation in which the
    prompt does not occur, the removal returns the trimmed continuation. *)
Theorem leading_echo_removed (prompt continuation : str) :
  prompt ≠ [] →
  ¬ occurs_in prompt continuation →
  strip_prompt prompt (prompt ++ continuation) = strip continuation.
Proof.
  intros Hne Habs. rewrite strip_prompt_present by (by exists [], continuation).
  rewrite replace_nonempty, replace_scan_match by done.
  by rewrite replace_scan_absent.
Qed.

Lemma leading_echo_removed_witness :
  py "Once" ≠ [] ∧ ¬ occurs_in (py "Once") (py " upon a time ") ∧
  strip_prompt (py "Once") (py "Once" ++ py " upon a time ") = py "upon a time".
Proof.
  assert (py "Once" ≠ []) as H1 by done.
  assert (¬ occurs_in (py "Once") (py " upon a time ")) as H2
    by (apply contains_false; vm_compute; reflexivity).
  split; [exact H1 |]. split; [exact H2 |].
  exact (leading_echo_removed _ _ H1 H2).
Defined.
